(** * The vote handler of the polls application (polls/views.py)

    A shallow embedding of [vote] and of the framework operations it calls,
    written in a small state-and-exception monad: the handler threads the
    database, the browser session and the message storage, and may end in a
    Python exception ([Http404], or a storage error that leaves the
    [transaction.atomic()] block). *)

From Stdlib Require Import ZArith Lia.
From stdpp Require Import base decidable option list strings pretty gmap fin_maps sorting.

(** ** Models and persistent state *)

(** Modelled from the spec: the Question entity of polls/models.py, which is
    not among the sources. Its fields are the ones named by the admin's
    [list_display] and by the [pub_date__lte] filter of the views; the
    publication timestamp is a point on the integer time line. The primary
    key is the key of the table, not a field of the row. *)
Record Question := {
  question_text : string;
  pub_date : Z
}.

(** Modelled from the spec: the Choice entity of polls/models.py: display
    text, the owning question (a foreign key, many-to-one) and the vote
    counter. *)
Record Choice := {
  choice_text : string;
  question : Z;
  votes : Z
}.

(** A model instance as the ORM hands it out: a row together with its
    primary key ([question.id], [choice.pk]). *)
Record Obj (R : Type) := {
  pk : Z;
  fields : R
}.
Arguments pk {R} _.
Arguments fields {R} _.

(** The two tables, keyed by primary key. *)
Record Database := {
  Question_objects : gmap Z Question;
  Choice_objects : gmap Z Choice
}.

Inductive Level := DEBUG | INFO | SUCCESS | WARNING | ERROR.

(** What a request runs against: the database, [request.session], the
    message storage of django.contrib.messages, the clock read by
    [timezone.now()], and the storage engine's faults: [storage_fault w k]
    tells that an UPDATE of the Choice row [k] raises instead of writing. *)
Record World := {
  db : Database;
  session : gmap string (list Z);
  messages : list (Level * string);
  now : Z;
  storage_fault : Z → bool
}.

Definition set_choices (f : gmap Z Choice → gmap Z Choice) (w : World) : World :=
  {| db := {| Question_objects := Question_objects (db w);
              Choice_objects := f (Choice_objects (db w)) |};
     session := session w; messages := messages w;
     now := now w; storage_fault := storage_fault w |}.

Definition set_db (d : Database) (w : World) : World :=
  {| db := d; session := session w; messages := messages w;
     now := now w; storage_fault := storage_fault w |}.

Definition set_session (s : gmap string (list Z)) (w : World) : World :=
  {| db := db w; session := s; messages := messages w;
     now := now w; storage_fault := storage_fault w |}.

Definition set_messages (ms : list (Level * string)) (w : World) : World :=
  {| db := db w; session := session w; messages := ms;
     now := now w; storage_fault := storage_fault w |}.

(** ** The handler monad: state passing with Python exceptions *)

Inductive exn :=
  | Http404
  | KeyError (msg : string)
  | DoesNotExist (msg : string)
  | DatabaseError.

Inductive Result (A : Type) :=
  | Return (a : A)
  | Raise (e : exn).
Arguments Return {A} a.
Arguments Raise {A} e.

Definition Handler (A : Type) : Type := World → Result A * World.

Global Instance Handler_ret : MRet Handler := λ A a w, (Return a, w).

Global Instance Handler_bind : MBind Handler := λ A B f m w,
  match m w with
  | (Return a, w') => f a w'
  | (Raise e, w') => (Raise e, w')
  end.

Definition raise {A} (e : exn) : Handler A := λ w, (Raise e, w).

(** [try: body except catches: handler]. *)
Definition try_except {A} (body : Handler A) (catches : exn → bool)
    (handler : Handler A) : Handler A := λ w,
  match body w with
  | (Raise e, w') => if catches e then handler w' else (Raise e, w')
  | r => r
  end.

(** [for x in l: body x]. *)
Fixpoint for_each {A} (l : list A) (body : A → Handler unit) : Handler unit :=
  match l with
  | [] => mret ()
  | x :: l' => body x ;; for_each l' body
  end.

(** ** Framework operations used by the view *)

Definition timezone_now : Handler Z := λ w, (Return (now w), w).

(** [Question.objects.filter(pub_date__lte=t)]. *)
Definition Question_objects_filter_pub_date_lte (t : Z) : Handler (gmap Z Question) := λ w,
  (Return (filter (λ kq, (pub_date kq.2 ≤ t)%Z) (Question_objects (db w))), w).

(** [get_object_or_404(queryset, pk=k)]. *)
Definition get_object_or_404 {R} (queryset : gmap Z R) (k : Z) : Handler (Obj R) :=
  match queryset !! k with
  | Some r => mret {| pk := k; fields := r |}
  | None => raise Http404
  end.

(** [request.session.get(key, default)]. *)
Definition session_get (key : string) (dflt : list Z) : Handler (list Z) := λ w,
  (Return (default dflt (session w !! key)), w).

(** [request.session[key] = value]. *)
Definition session_setitem (key : string) (value : list Z) : Handler unit := λ w,
  (Return (), set_session (<[key := value]> (session w)) w).

Definition messages_add (level : Level) (message : string) : Handler unit := λ w,
  (Return (), set_messages (messages w ++ [(level, message)]) w).

Definition messages_warning : string → Handler unit := messages_add WARNING.
Definition messages_error : string → Handler unit := messages_add ERROR.
Definition messages_success : string → Handler unit := messages_add SUCCESS.

(** [question.choice_set.filter(pk__in=choice_ids)]: the rows of the Choice
    table owned by [question] whose key is among [choice_ids]. The queryset
    is evaluated once, by the first [len], and the view reuses that result;
    nothing writes to the database in between. *)
Definition choice_set_filter_pk_in (q : Obj Question) (choice_ids : list Z)
    : Handler (list (Obj Choice)) := λ w,
  (Return ((λ kc, {| pk := kc.1; fields := kc.2 |}) <$>
             filter (λ kc : Z * Choice, question kc.2 = pk q ∧ kc.1 ∈ choice_ids)
                    (map_to_list (Choice_objects (db w)))), w).

Definition F_votes_plus_1 (c : Choice) : Choice :=
  {| choice_text := choice_text c; question := question c; votes := (votes c + 1)%Z |}.

(** [Choice.objects.filter(pk=k).update(votes=F("votes") + 1)]: one UPDATE
    statement, which the storage engine either applies or fails. *)
Definition Choice_objects_filter_pk_update (k : Z) : Handler unit := λ w,
  if storage_fault w k then (Raise DatabaseError, w)
  else (Return (), set_choices (alter F_votes_plus_1 k) w).

(** [with transaction.atomic(): body]: when the body raises, the database
    is rolled back to what it was on entry and the exception goes on. *)
Definition transaction_atomic {A} (body : Handler A) : Handler A := λ w,
  match body w with
  | (Raise e, w') => (Raise e, set_db (db w) w')
  | r => r
  end.

(** ** Requests and responses *)

Record HttpRequest := {
  method : string;
  POST : gmap string (list Z)
}.

(** [request.POST.getlist(key)]. The values of the form field are taken as
    already read in the type of the primary key. *)
Definition getlist (data : gmap string (list Z)) (key : string) : list Z :=
  default [] (data !! key).

(** [reverse(viewname, args=...)]: the URL configuration is not part of the
    view, a URL is kept as the route name with its arguments. *)
Inductive URL := reverse (viewname : string) (args : list Z).

Inductive ContextValue :=
  | ctx_question (q : Obj Question)
  | ctx_str (s : string).

Inductive HttpResponse :=
  | HttpResponseNotAllowed (permitted_methods : list string)
  | HttpResponseRedirect (redirect_to : URL)
  | render (template_name : string) (context : list (string * ContextValue)).

(** ** polls/views.py: vote

    [request.session] is the [session] of the world. An early [return] of
    the view is the end of the corresponding branch. The [try] block hands
    its [selected_choices] on ([inr]); its [except] clause, which returns
    from the view, hands on the response ([inl]). [voted_questions.append]
    works on the list the session holds (or on the fresh default) and the
    next statement stores that list under the key, so that the session ends
    with the appended list either way. *)

Definition vote (request : HttpRequest) (question_id : Z) : Handler HttpResponse :=
  if decide (method request ≠ "POST") then
    mret (HttpResponseNotAllowed ["POST"])
  else
    t ← timezone_now;
    queryset ← Question_objects_filter_pub_date_lte t;
    question ← get_object_or_404 queryset question_id;
    voted_questions ← session_get "voted_questions" [];
    if decide (pk question ∈ voted_questions) then
      messages_warning "You have already voted on this question.";;
      mret (HttpResponseRedirect (reverse "polls:results" [pk question]))
    else
      validated ← try_except
        (let choice_ids := getlist (POST request) "choice" in
         if decide (choice_ids = []) then raise (KeyError "No choices selected")
         else
           selected_choices ← choice_set_filter_pk_in question choice_ids;
           if decide (length selected_choices ≠ length choice_ids)
           then raise (DoesNotExist "Invalid choice selected")
           else mret (inr selected_choices))
        (λ e, match e with KeyError _ | DoesNotExist _ => true | _ => false end)
        (messages_error "You didn't select any valid choices.";;
         mret (inl (render "polls/detail.html"
                      [("question", ctx_question question);
                       ("error_message", ctx_str "You didn't select any valid choices.")])));
      match validated with
      | inl response => mret response
      | inr selected_choices =>
          transaction_atomic
            (for_each selected_choices
               (λ choice, Choice_objects_filter_pk_update (pk choice)));;
          let voted_questions := voted_questions ++ [pk question] in
          session_setitem "voted_questions" voted_questions;;
          let choice_count := length selected_choices in
          (if decide (choice_count = 1) then messages_success "Thanks for voting!"
           else messages_success
                  ("Thanks for voting! You selected " +:+ pretty choice_count +:+ " choices."));;
          mret (HttpResponseRedirect (reverse "polls:results" [pk question]))
      end.

(** ** A small poll to run the handler on *)

Module Demo.

Definition questions : gmap Z Question :=
  {[ 1%Z := {| question_text := "Tabs or spaces?"; pub_date := 100 |};
     2%Z := {| question_text := "Next year's poll"; pub_date := 900 |} ]}.

Definition choices : gmap Z Choice :=
  {[ 10%Z := {| choice_text := "Tabs"; question := 1; votes := 4 |};
     11%Z := {| choice_text := "Spaces"; question := 1; votes := 7 |};
     12%Z := {| choice_text := "Both"; question := 1; votes := 0 |};
     20%Z := {| choice_text := "Yes"; question := 2; votes := 0 |} ]}.

Definition world : World :=
  {| db := {| Question_objects := questions; Choice_objects := choices |};
     session := ∅; messages := []; now := 500; storage_fault := λ _, false |}.

Definition post (ids : list Z) : HttpRequest :=
  {| method := "POST"; POST := {[ "choice" := ids ]} |}.

Definition get : HttpRequest := {| method := "GET"; POST := ∅ |}.

(** The same poll on a storage engine that fails the UPDATE of row 12. *)
Definition faulty : World :=
  {| db := {| Question_objects := questions; Choice_objects := choices |};
     session := ∅; messages := []; now := 500;
     storage_fault := λ k, bool_decide (k = 12%Z) |}.

(** The same poll, seen from a session that has voted on question 1. *)
Definition returning : World :=
  {| db := {| Question_objects := questions; Choice_objects := choices |};
     session := {[ "voted_questions" := [1%Z] ]}; messages := []; now := 500;
     storage_fault := λ _, false |}.

Definition counters (w : World) : list (Z * Z) :=
  (λ k, (k, default (-1)%Z (votes <$> Choice_objects (db w) !! k))) <$> [10; 11; 12; 20]%Z.

End Demo.

(** ** Vocabulary of the statements *)

(** The question exists and its publication timestamp is not in the future. *)
Definition published (w : World) (qid : Z) : Prop :=
  ∃ q, Question_objects (db w) !! qid = Some q ∧ (pub_date q ≤ now w)%Z.

(** The session's vote record, as the handler reads it at entry. *)
Definition voted_questions (w : World) : list Z :=
  default [] (session w !! "voted_questions").

(** [k] is the key of an existing choice of question [qid]. *)
Definition valid_choice (w : World) (qid k : Z) : Prop :=
  ∃ c, Choice_objects (db w) !! k = Some c ∧ question c = qid.

(** The vote counter of choice [k], when the choice exists. *)
Definition counter (w : World) (k : Z) : option Z :=
  votes <$> Choice_objects (db w) !! k.

(** The identifiers a request submits. *)
Definition submitted (request : HttpRequest) : list Z :=
  getlist (POST request) "choice".

(** The storage engine applies the UPDATE of each of the rows [ks]. *)
Definition storage_ok (w : World) (ks : list Z) : Prop :=
  ∀ k, k ∈ ks → storage_fault w k = false.

(** The result of the queryset of the view, as a pure function. *)
Definition selected (w : World) (qid : Z) (ids : list Z) : list (Obj Choice) :=
  (λ kc, {| pk := kc.1; fields := kc.2 |}) <$>
    filter (λ kc : Z * Choice, question kc.2 = qid ∧ kc.1 ∈ ids)
           (map_to_list (Choice_objects (db w))).

(** The two worlds differ at most in the database. *)
Definition frame (w w' : World) : Prop :=
  session w' = session w ∧ messages w' = messages w ∧
  now w' = now w ∧ storage_fault w' = storage_fault w.

(** The counters after one UPDATE for each key of [ks], in order. *)
Definition apply_votes (ks : list Z) (m : gmap Z Choice) : gmap Z Choice :=
  foldl (λ m k, alter F_votes_plus_1 k m) m ks.

Definition results_url (qid : Z) : URL := reverse "polls:results" [qid].

Definition error_page (qid : Z) (q : Question) : HttpResponse :=
  render "polls/detail.html"
    [("question", ctx_question {| pk := qid; fields := q |});
     ("error_message", ctx_str "You didn't select any valid choices.")].

Definition thanks (n : nat) : string :=
  if decide (n = 1) then "Thanks for voting!"
  else "Thanks for voting! You selected " +:+ pretty n +:+ " choices.".

(** The world a successful vote leaves behind. *)
Definition voted_world (w : World) (qid : Z) (ids : list Z) : World :=
  set_messages (messages w ++ [(SUCCESS, thanks (length (selected w qid ids)))])
    (set_session (<["voted_questions" := voted_questions w ++ [qid]]> (session w))
       (set_choices (apply_votes (pk <$> selected w qid ids)) w)).

(** Worlds reached by serving vote requests one after the other. Between
    two requests everything but the database may change: the next request
    may come from another session, at a later time, to a storage engine with
    other faults. *)
Inductive served : World → World → Prop :=
  | served_none w : served w w
  | served_vote w w1 request qid w2 :
      served w w1 → db w2 = db (snd (vote request qid w1)) → served w w2.

(** The six ways through the handler, each with the response (or the
    exception) it ends in and the world it leaves. [vote_paths] below shows
    that every run of [vote] is one of them. *)
Inductive vote_path (request : HttpRequest) (qid : Z) (w : World)
    : Result HttpResponse * World → Prop :=
  | path_not_allowed :
      method request ≠ "POST" →
      vote_path request qid w (Return (HttpResponseNotAllowed ["POST"]), w)
  | path_not_found :
      method request = "POST" → ¬ published w qid →
      vote_path request qid w (Raise Http404, w)
  | path_already_voted :
      method request = "POST" → published w qid → qid ∈ voted_questions w →
      vote_path request qid w
        (Return (HttpResponseRedirect (results_url qid)),
         set_messages
           (messages w ++ [(WARNING, "You have already voted on this question.")]) w)
  | path_invalid q :
      method request = "POST" →
      Question_objects (db w) !! qid = Some q → (pub_date q ≤ now w)%Z →
      qid ∉ voted_questions w →
      submitted request = [] ∨
        length (selected w qid (submitted request)) ≠ length (submitted request) →
      vote_path request qid w
        (Return (error_page qid q),
         set_messages
           (messages w ++ [(ERROR, "You didn't select any valid choices.")]) w)
  | path_storage_error k :
      method request = "POST" → published w qid → qid ∉ voted_questions w →
      submitted request ≠ [] →
      length (selected w qid (submitted request)) = length (submitted request) →
      k ∈ pk <$> selected w qid (submitted request) → storage_fault w k = true →
      vote_path request qid w (Raise DatabaseError, w)
  | path_voted :
      method request = "POST" → published w qid → qid ∉ voted_questions w →
      submitted request ≠ [] →
      length (selected w qid (submitted request)) = length (submitted request) →
      storage_ok w (pk <$> selected w qid (submitted request)) →
      vote_path request qid w
        (Return (HttpResponseRedirect (results_url qid)),
         voted_world w qid (submitted request)).

(** ** polls/views.py: the read-only views *)

Inductive Ordering := Unordered | MinusPubDate.

(** A queryset of questions in the making: the rows its filters have kept
    and the ordering asked for. The rows are read when the queryset is
    built; the framework turns it into objects within the same request. *)
Record QuerySet := {
  qs_rows : gmap Z Question;
  qs_ordering : Ordering
}.

(** [qs.filter(...)] with the condition [P] on the key and the row. *)
Definition qs_filter (P : Z * Question → Prop) `{∀ x, Decision (P x)}
    (qs : QuerySet) : QuerySet :=
  {| qs_rows := filter P (qs_rows qs); qs_ordering := qs_ordering qs |}.

(** [qs.order_by("-pub_date")]. *)
Definition order_by_minus_pub_date (qs : QuerySet) : QuerySet :=
  {| qs_rows := qs_rows qs; qs_ordering := MinusPubDate |}.

Definition more_recent : relation (Obj Question) := λ a b,
  (pub_date (fields b) ≤ pub_date (fields a))%Z.

Global Instance more_recent_dec a b : Decision (more_recent a b) :=
  decide (pub_date (fields b) ≤ pub_date (fields a))%Z.

(** The objects of a queryset, as the list view iterates them: most recent
    first when so ordered, questions of one timestamp in the order the
    storage yields them. *)
Definition objects (qs : QuerySet) : list (Obj Question) :=
  let l := (λ kq, {| pk := kq.1; fields := kq.2 |}) <$> map_to_list (qs_rows qs) in
  match qs_ordering qs with
  | Unordered => l
  | MinusPubDate => merge_sort more_recent l
  end.

(** [if q:] on the result of [request.GET.get("q")]. *)
Definition truthy (q : option string) : bool :=
  match q with
  | Some s => bool_decide (s ≠ "")
  | None => false
  end.

(** [Q(question_text__icontains=q) | Q(id__icontains=q)]. What
    [icontains haystack needle] finds is the storage engine's business and
    is left open; the key is matched in its decimal writing. *)
Definition search (icontains : string → string → bool) (q : string)
    (kq : Z * Question) : Prop :=
  icontains (question_text kq.2) q || icontains (pretty kq.1) q.

Global Instance search_dec icontains q kq : Decision (search icontains q kq) :=
  decide (Is_true (icontains (question_text kq.2) q || icontains (pretty kq.1) q)).

(** [IndexView.get_queryset], with [self.request.GET] for argument. *)
Definition IndexView_get_queryset (icontains : string → string → bool)
    (GET : gmap string string) : Handler QuerySet :=
  t ← timezone_now;
  rows ← Question_objects_filter_pub_date_lte t;
  let qs := order_by_minus_pub_date {| qs_rows := rows; qs_ordering := Unordered |} in
  let q := GET !! "q" in
  let qs := if truthy q then qs_filter (search icontains (default "" q)) qs else qs in
  mret qs.

(** [IndexView.get_context_data], with the context of the parent class and
    [self.request.GET] for arguments. *)
Definition IndexView_get_context_data (super_context : gmap string ContextValue)
    (GET : gmap string string) : gmap string ContextValue :=
  <["q" := ctx_str (default "" (GET !! "q"))]> super_context.

(** [DetailView.get_queryset]. *)
Definition DetailView_get_queryset : Handler QuerySet :=
  t ← timezone_now;
  rows ← Question_objects_filter_pub_date_lte t;
  mret {| qs_rows := rows; qs_ordering := Unordered |}.

(** [ResultsView.get_queryset]. *)
Definition ResultsView_get_queryset : Handler QuerySet :=
  t ← timezone_now;
  rows ← Question_objects_filter_pub_date_lte t;
  mret {| qs_rows := rows; qs_ordering := Unordered |}.

(** [get_object] of a detail view: the object of the view's queryset with
    the key of the URL, or [Http404]. *)
Definition get_object (get_queryset : Handler QuerySet) (k : Z) : Handler (Obj Question) :=
  qs ← get_queryset;
  get_object_or_404 (qs_rows qs) k.

(** ** Vocabulary of the further statements *)

(** The sum of the counters of the choices of question [qid] among [l]. *)
Definition tally (qid : Z) (l : list (Z * Choice)) : Z :=
  foldr (λ kc acc, if decide (question kc.2 = qid) then (votes kc.2 + acc)%Z else acc)
        0%Z l.

(** The votes cast on question [qid]: the sum of the counters of its choices. *)
Definition question_votes (w : World) (qid : Z) : Z :=
  tally qid (map_to_list (Choice_objects (db w))).

(** The same submission sent [n] times, each time with a session that has
    not voted yet. *)
Fixpoint votes_of_fresh_sessions (n : nat) (request : HttpRequest) (qid : Z)
    (w : World) : World :=
  match n with
  | 0 => w
  | S n' => votes_of_fresh_sessions n' request qid
              (snd (vote request qid (set_session ∅ w)))
  end.

Module DemoViews.

(** A containment test to run the search with: exact, case-sensitive. *)
Definition contains (haystack needle : string) : bool :=
  bool_decide (is_Some (String.index 0 needle haystack)).

Definition archive : gmap Z Question :=
  {[ 1%Z := {| question_text := "Tabs or spaces?"; pub_date := 100 |};
     2%Z := {| question_text := "Next year's poll"; pub_date := 900 |};
     3%Z := {| question_text := "Vim or Emacs?"; pub_date := 300 |};
     4%Z := {| question_text := "Spaces, how many?"; pub_date := 200 |} ]}.

Definition world : World :=
  {| db := {| Question_objects := archive; Choice_objects := Demo.choices |};
     session := ∅; messages := []; now := 500; storage_fault := λ _, false |}.

Definition listed (GET : gmap string string) : list Z :=
  match IndexView_get_queryset contains GET world with
  | (Return qs, _) => pk <$> objects qs
  | (Raise _, _) => []
  end.

End DemoViews.

(** The order of the index is a total preorder. *)
Global Instance more_recent_total : Total more_recent.
Proof. intros a b. unfold more_recent. lia. Qed.

Global Instance more_recent_trans : Transitive more_recent.
Proof. intros a b c. unfold more_recent. lia. Qed.

(** ** The state and the framework operations *)

Lemma set_choices_id w : set_choices (λ m, m) w = w.
Proof. by destruct w as [[] ? ? ? ?]. Qed.

Lemma set_db_frame w w' : frame w w' → set_db (db w) w' = w.
Proof.
  destruct w, w'. unfold frame, set_db. simpl. intros (-> & -> & -> & ->). done.
Qed.

Lemma frame_refl w : frame w w.
Proof. by repeat split. Qed.

Lemma published_filter w qid q :
  filter (λ kq : Z * Question, (pub_date kq.2 ≤ now w)%Z) (Question_objects (db w)) !! qid = Some q
  ↔ Question_objects (db w) !! qid = Some q ∧ (pub_date q ≤ now w)%Z.
Proof. by rewrite map_lookup_filter_Some. Qed.

Lemma not_published_filter w qid :
  ¬ published w qid →
  filter (λ kq : Z * Question, (pub_date kq.2 ≤ now w)%Z) (Question_objects (db w)) !! qid = None.
Proof.
  intros Hn. destruct (filter _ _ !! qid) as [q|] eqn:E; [|done].
  apply published_filter in E. destruct Hn. by exists q.
Qed.

(** ** The paths of the handler *)

Lemma vote_not_POST request qid w :
  method request ≠ "POST" →
  vote request qid w = (Return (HttpResponseNotAllowed ["POST"]), w).
Proof. intros H. unfold vote. by rewrite decide_True. Qed.

Lemma vote_not_found request qid w :
  method request = "POST" → ¬ published w qid →
  vote request qid w = (Raise Http404, w).
Proof.
  intros HP Hn. unfold vote. rewrite decide_False by (by intros []).
  unfold mbind, Handler_bind, timezone_now, Question_objects_filter_pub_date_lte,
    get_object_or_404.
  by rewrite (not_published_filter _ _ Hn).
Qed.

Lemma vote_already_voted request qid w :
  method request = "POST" → published w qid → qid ∈ voted_questions w →
  vote request qid w =
    (Return (HttpResponseRedirect (results_url qid)),
     set_messages (messages w ++ [(WARNING, "You have already voted on this question.")]) w).
Proof.
  intros HP (q & Hq & Hd) Hv. unfold vote. rewrite decide_False by (by intros []).
  unfold mbind, Handler_bind, timezone_now, Question_objects_filter_pub_date_lte,
    get_object_or_404.
  rewrite (proj2 (published_filter w qid q) (conj Hq Hd)).
  unfold mret, Handler_ret, session_get. fold (voted_questions w). simpl.
  by rewrite decide_True.
Qed.

(** ** The queryset of selected choices *)

Lemma pk_selected w qid ids :
  pk <$> selected w qid ids =
  (filter (λ kc : Z * Choice, question kc.2 = qid ∧ kc.1 ∈ ids)
          (map_to_list (Choice_objects (db w)))).*1.
Proof. unfold selected. rewrite <- list_fmap_compose. by apply list_fmap_ext. Qed.

Lemma NoDup_pk_selected w qid ids : NoDup (pk <$> selected w qid ids).
Proof.
  rewrite pk_selected.
  eapply sublist_NoDup; [apply (NoDup_fst_map_to_list (Choice_objects (db w)))|].
  apply fmap_sublist, sublist_filter.
Qed.

Lemma elem_of_pk_selected w qid ids k :
  k ∈ pk <$> selected w qid ids ↔ k ∈ ids ∧ valid_choice w qid k.
Proof.
  rewrite pk_selected, list_elem_of_fmap. split.
  - intros ([k' c] & -> & H). apply list_elem_of_filter in H as [[Hq Hk] H].
    apply elem_of_map_to_list in H. simpl in *. split; [done|]. by exists c.
  - intros (Hk & c & Hc & Hq). exists (k, c). split; [done|].
    apply list_elem_of_filter. split; [done|]. by apply elem_of_map_to_list.
Qed.

(** The view's test [len(selected_choices) != len(choice_ids)] passes
    exactly for a list of distinct keys of choices of the question. *)
Lemma length_selected w qid ids :
  length (selected w qid ids) = length ids ↔
  NoDup ids ∧ ∀ k, k ∈ ids → valid_choice w qid k.
Proof.
  assert (pk <$> selected w qid ids ⊆+ ids) as Hsub.
  { apply NoDup_submseteq; [apply NoDup_pk_selected|].
    intros k Hk. by apply elem_of_pk_selected in Hk as []. }
  split.
  - intros Hlen.
    assert (pk <$> selected w qid ids ≡ₚ ids) as HP.
    { apply submseteq_length_Permutation; [done|]. rewrite length_fmap. lia. }
    split.
    + rewrite <- HP. apply NoDup_pk_selected.
    + intros k Hk. rewrite <- HP in Hk. by apply elem_of_pk_selected in Hk as [].
  - intros [Hnd Hval].
    assert (ids ⊆+ pk <$> selected w qid ids) as Hsup.
    { apply NoDup_submseteq; [done|]. intros k Hk. apply elem_of_pk_selected. auto. }
    apply submseteq_length in Hsub, Hsup. rewrite length_fmap in *. lia.
Qed.

Lemma length_selected_le w qid ids : length (selected w qid ids) ≤ length ids.
Proof.
  rewrite <- (length_fmap pk). apply submseteq_length, NoDup_submseteq.
  - apply NoDup_pk_selected.
  - intros k Hk. by apply elem_of_pk_selected in Hk as [].
Qed.

(** ** The increments *)

Lemma lookup_apply_votes ks m k :
  NoDup ks →
  apply_votes ks m !! k =
    if decide (k ∈ ks) then F_votes_plus_1 <$> m !! k else m !! k.
Proof.
  unfold apply_votes. revert m. induction ks as [|k0 ks IH]; intros m Hnd.
  - case_decide as Hk; [by apply not_elem_of_nil in Hk|done].
  - apply NoDup_cons in Hnd as [Hk0 Hnd]. cbn [foldl]. rewrite IH by done.
    destruct (decide (k = k0)) as [->|Hne].
    + rewrite lookup_alter_eq.
      rewrite (decide_False (P := k0 ∈ ks)) by done.
      by rewrite decide_True by apply list_elem_of_here.
    + rewrite lookup_alter_ne by done.
      destruct (decide (k ∈ ks)) as [Hin|Hin].
      * by rewrite decide_True by (by apply list_elem_of_further).
      * rewrite decide_False; [done|]. by intros [?|?]%elem_of_cons.
Qed.

Lemma for_each_update_ok (l : list (Obj Choice)) w :
  storage_ok w (pk <$> l) →
  for_each l (λ choice, Choice_objects_filter_pk_update (pk choice)) w =
    (Return (), set_choices (apply_votes (pk <$> l)) w).
Proof.
  revert w. induction l as [|o l IH]; intros w Hok; simpl.
  - unfold mret, Handler_ret. by rewrite set_choices_id.
  - unfold mbind, Handler_bind, Choice_objects_filter_pk_update at 1.
    rewrite (Hok (pk o)) by apply list_elem_of_here.
    rewrite IH; [done|]. intros k Hk. simpl. apply Hok. by apply list_elem_of_further.
Qed.

Lemma for_each_update_fault (l : list (Obj Choice)) w k :
  k ∈ pk <$> l → storage_fault w k = true →
  ∃ w', for_each l (λ choice, Choice_objects_filter_pk_update (pk choice)) w =
          (Raise DatabaseError, w') ∧ frame w w'.
Proof.
  revert w. induction l as [|o l IH]; intros w Hk Hf; simpl in *.
  - by apply not_elem_of_nil in Hk.
  - unfold mbind, Handler_bind, Choice_objects_filter_pk_update at 1.
    destruct (storage_fault w (pk o)) eqn:Ho.
    + exists w. split; [done|apply frame_refl].
    + apply elem_of_cons in Hk as [->|Hk]; [congruence|].
      destruct (IH (set_choices (alter F_votes_plus_1 (pk o)) w) Hk Hf) as (w' & -> & Hfr).
      exists w'. split; [done|]. by destruct Hfr as (? & ? & ? & ?).
Qed.

(** ** The paths behind the three gates *)

Ltac vote_pass_gates request qid w HP Hq Hd Hv :=
  unfold vote; rewrite decide_False by (by intros []);
  unfold mbind, Handler_bind, timezone_now, Question_objects_filter_pub_date_lte,
    get_object_or_404;
  rewrite (proj2 (published_filter _ _ _) (conj Hq Hd));
  unfold mret, Handler_ret, session_get; cbn [pk fields];
  change (default [] (session w !! "voted_questions")) with (voted_questions w);
  change (getlist (POST request) "choice") with (submitted request);
  rewrite (decide_False (P := qid ∈ voted_questions w)) by exact Hv;
  unfold try_except, choice_set_filter_pk_in, raise; cbn [pk fields];
  fold (selected w qid (submitted request)).

Lemma vote_invalid request qid w q :
  method request = "POST" →
  Question_objects (db w) !! qid = Some q → (pub_date q ≤ now w)%Z →
  qid ∉ voted_questions w →
  submitted request = [] ∨
    length (selected w qid (submitted request)) ≠ length (submitted request) →
  vote request qid w =
    (Return (error_page qid q),
     set_messages (messages w ++ [(ERROR, "You didn't select any valid choices.")]) w).
Proof.
  intros HP Hq Hd Hv Hbad. vote_pass_gates request qid w HP Hq Hd Hv.
  destruct (decide (submitted request = [])) as [He|He]; [done|].
  destruct Hbad as [?|Hlen]; [done|].
  by rewrite decide_True.
Qed.

Lemma vote_valid_ok request qid w q :
  method request = "POST" →
  Question_objects (db w) !! qid = Some q → (pub_date q ≤ now w)%Z →
  qid ∉ voted_questions w →
  submitted request ≠ [] →
  length (selected w qid (submitted request)) = length (submitted request) →
  storage_ok w (pk <$> selected w qid (submitted request)) →
  vote request qid w =
    (Return (HttpResponseRedirect (results_url qid)),
     voted_world w qid (submitted request)).
Proof.
  intros HP Hq Hd Hv Hne Hlen Hok. vote_pass_gates request qid w HP Hq Hd Hv.
  rewrite (decide_False (P := submitted request = [])) by done.
  rewrite (decide_False (P := _ ≠ _)) by (by intros []).
  unfold transaction_atomic. rewrite for_each_update_ok by done.
  unfold session_setitem. cbn [session].
  unfold voted_world, thanks, selected, results_url.
  by case_decide.
Qed.

Lemma vote_valid_fault request qid w q k :
  method request = "POST" →
  Question_objects (db w) !! qid = Some q → (pub_date q ≤ now w)%Z →
  qid ∉ voted_questions w →
  submitted request ≠ [] →
  length (selected w qid (submitted request)) = length (submitted request) →
  k ∈ pk <$> selected w qid (submitted request) → storage_fault w k = true →
  vote request qid w = (Raise DatabaseError, w).
Proof.
  intros HP Hq Hd Hv Hne Hlen Hk Hf. vote_pass_gates request qid w HP Hq Hd Hv.
  rewrite (decide_False (P := submitted request = [])) by done.
  rewrite (decide_False (P := _ ≠ _)) by (by intros []).
  unfold transaction_atomic.
  destruct (for_each_update_fault _ w k Hk Hf) as (w' & E & Hfr).
  unfold selected in E. rewrite E.
  by rewrite set_db_frame.
Qed.

Lemma published_dec w qid : published w qid ∨ ¬ published w qid.
Proof.
  unfold published. destruct (Question_objects (db w) !! qid) as [q|] eqn:E.
  - destruct (decide (pub_date q ≤ now w)%Z) as [Hd|Hd].
    + left. by exists q.
    + right. intros (q' & [= <-] & ?). done.
  - right. by intros (q' & [=] & ?).
Qed.

Lemma storage_ok_dec w ks :
  storage_ok w ks ∨ ∃ k, k ∈ ks ∧ storage_fault w k = true.
Proof.
  destruct (decide (Exists (λ k, storage_fault w k = true) ks)) as [He|He].
  - right. by apply Exists_exists in He.
  - left. intros k Hk. destruct (storage_fault w k) eqn:E; [|done].
    destruct He. apply Exists_exists. eauto.
Qed.

(** Every run of the handler takes one of the six paths. *)
Lemma vote_paths request qid w : vote_path request qid w (vote request qid w).
Proof.
  destruct (decide (method request = "POST")) as [HP|HP];
    [|rewrite vote_not_POST by done; by constructor].
  destruct (published_dec w qid) as [Hpub|Hpub];
    [|rewrite vote_not_found by done; by constructor].
  destruct (decide (qid ∈ voted_questions w)) as [Hv|Hv];
    [rewrite vote_already_voted by done; by constructor|].
  destruct Hpub as (q & Hq & Hd).
  assert (published w qid) as Hpub by (by exists q).
  destruct (decide (submitted request = [])) as [He|He];
    [rewrite (vote_invalid _ _ _ q) by auto; constructor; auto|].
  destruct (decide (length (selected w qid (submitted request))
                    = length (submitted request))) as [Hlen|Hlen];
    [|rewrite (vote_invalid _ _ _ q) by auto; constructor; auto].
  destruct (storage_ok_dec w (pk <$> selected w qid (submitted request)))
    as [Hok|(k & Hk & Hf)].
  - rewrite (vote_valid_ok _ _ _ q) by done. by constructor.
  - rewrite (vote_valid_fault _ _ _ q k) by done. by econstructor.
Qed.

(** ** The world after a successful vote *)

Lemma lookup_voted_world_selected w qid ids k :
  k ∈ ids → valid_choice w qid k →
  Choice_objects (db (voted_world w qid ids)) !! k =
    F_votes_plus_1 <$> Choice_objects (db w) !! k.
Proof.
  intros Hk Hval. unfold voted_world.
  cbn [db set_messages set_session set_choices Choice_objects].
  rewrite lookup_apply_votes by apply NoDup_pk_selected.
  rewrite decide_True; [done|]. by apply elem_of_pk_selected.
Qed.

Lemma lookup_voted_world_other w qid ids k :
  ¬ (k ∈ ids ∧ valid_choice w qid k) →
  Choice_objects (db (voted_world w qid ids)) !! k = Choice_objects (db w) !! k.
Proof.
  intros Hk. unfold voted_world.
  cbn [db set_messages set_session set_choices Choice_objects].
  rewrite lookup_apply_votes by apply NoDup_pk_selected.
  rewrite decide_False; [done|]. by rewrite elem_of_pk_selected.
Qed.

(** After a successful vote every row is what it was, or what it was with
    its counter one higher. *)
Lemma lookup_voted_world w qid ids k :
  Choice_objects (db (voted_world w qid ids)) !! k = Choice_objects (db w) !! k ∨
  Choice_objects (db (voted_world w qid ids)) !! k =
    F_votes_plus_1 <$> Choice_objects (db w) !! k.
Proof.
  unfold voted_world.
  cbn [db set_messages set_session set_choices Choice_objects].
  rewrite lookup_apply_votes by apply NoDup_pk_selected.
  case_decide; auto.
Qed.

Lemma voted_questions_voted_world w qid ids :
  voted_questions (voted_world w qid ids) = voted_questions w ++ [qid].
Proof.
  unfold voted_world, voted_questions at 1. cbn [session set_messages set_session].
  by rewrite lookup_insert_eq.
Qed.

Lemma messages_voted_world w qid ids :
  messages (voted_world w qid ids) =
    messages w ++ [(SUCCESS, thanks (length (selected w qid ids)))].
Proof. done. Qed.

(** A valid submission on a storage engine that applies the updates. *)
Lemma vote_valid request qid w :
  method request = "POST" → published w qid → qid ∉ voted_questions w →
  submitted request ≠ [] → NoDup (submitted request) →
  (∀ k, k ∈ submitted request → valid_choice w qid k) →
  storage_ok w (submitted request) →
  vote request qid w =
    (Return (HttpResponseRedirect (results_url qid)),
     voted_world w qid (submitted request)).
Proof.
  intros HP (q & Hq & Hd) Hv Hne Hnd Hval Hok.
  apply (vote_valid_ok _ _ _ q); try done.
  - by apply length_selected.
  - intros k Hk. apply Hok. by apply elem_of_pk_selected in Hk as [].
Qed.

Lemma counter_voted_world_selected w qid ids k :
  k ∈ ids → valid_choice w qid k →
  ∃ v, counter w k = Some v ∧ counter (voted_world w qid ids) k = Some (v + 1)%Z.
Proof.
  intros Hk Hval. unfold counter.
  rewrite lookup_voted_world_selected by done.
  destruct Hval as (c & -> & _). by exists (votes c).
Qed.

(** The world a run leaves: the database and the session as they were, or
    the world of a successful vote. *)
Lemma vote_world (request : HttpRequest) (qid : Z) (w : World) :
  db (snd (vote request qid w)) = db w ∧ session (snd (vote request qid w)) = session w
  ∨ (qid ∉ voted_questions w) ∧ submitted request ≠ [] ∧
    length (selected w qid (submitted request)) = length (submitted request) ∧
    snd (vote request qid w) = voted_world w qid (submitted request).
Proof.
  destruct (vote_paths request qid w); cbn [snd]; auto.
Qed.

(** A run leaves every row as it was, or as it was with one more vote. *)
Lemma vote_row request qid w k :
  Choice_objects (db (snd (vote request qid w))) !! k = Choice_objects (db w) !! k ∨
  Choice_objects (db (snd (vote request qid w))) !! k =
    F_votes_plus_1 <$> Choice_objects (db w) !! k.
Proof.
  destruct (vote_world request qid w) as [[-> _]|(_ & _ & _ & ->)]; [by left|].
  apply lookup_voted_world.
Qed.

(** A selection that is empty, names something that is not a choice of the
    question, or names a choice twice, fails the view's validation. *)
Lemma bad_selection w qid ids :
  ids = [] ∨ (∃ k, k ∈ ids ∧ ¬ valid_choice w qid k) ∨ ¬ NoDup ids →
  ids = [] ∨ length (selected w qid ids) < length ids.
Proof.
  intros [?|Hbad]; [by left|right].
  pose proof (length_selected_le w qid ids) as Hle.
  destruct (decide (length (selected w qid ids) = length ids)) as [Heq|Hne]; [|lia].
  apply length_selected in Heq as [Hnd Hval].
  destruct Hbad as [(k & Hk & Hnv)|Hdup]; [|done]. destruct Hnv. auto.
Qed.

Lemma vote_bad_selection_no_update request qid w :
  submitted request = [] ∨
    length (selected w qid (submitted request)) < length (submitted request) →
  db (snd (vote request qid w)) = db w ∧ session (snd (vote request qid w)) = session w.
Proof.
  intros Hbad.
  destruct (vote_world request qid w) as [?|(_ & Hne & Hlen & _)]; [done|].
  destruct Hbad; [done|lia].
Qed.


Lemma thanks_many n :
  n ≠ 1 →
  thanks n = "Thanks for voting! You selected " +:+ pretty n +:+ " choices." ∧
  thanks n ≠ "Thanks for voting!".
Proof.
  intros Hn. unfold thanks. rewrite decide_False by done. split; [done|].
  simpl. discriminate.
Qed.

Lemma vote_row_votes request qid w k c :
  Choice_objects (db w) !! k = Some c →
  ∃ c', Choice_objects (db (snd (vote request qid w))) !! k = Some c' ∧
    (c' = c ∨ c' = F_votes_plus_1 c).
Proof.
  intros Hc. destruct (vote_row request qid w k) as [->| ->]; rewrite Hc.
  - exists c. auto.
  - exists (F_votes_plus_1 c). auto.
Qed.

(** The session's vote record after a run: as it was, or with the question
    appended, which then was not in it. *)
Lemma vote_voted_questions request qid w :
  voted_questions (snd (vote request qid w)) = voted_questions w
  ∨ (qid ∉ voted_questions w) ∧
    voted_questions (snd (vote request qid w)) = voted_questions w ++ [qid].
Proof.
  destruct (vote_world request qid w) as [[_ Hs]|(Hv & _ & _ & ->)].
  - left. unfold voted_questions. by rewrite Hs.
  - right. split; [done|]. apply voted_questions_voted_world.
Qed.

(** ** Runs on the demo poll *)

Example demo_single_vote :
  Demo.counters (snd (vote (Demo.post [10%Z]) 1 Demo.world))
    = [(10, 5); (11, 7); (12, 0); (20, 0)]%Z.
Proof. vm_compute. reflexivity. Qed.

Example demo_three_choices :
  messages (snd (vote (Demo.post [10; 11; 12]%Z) 1 Demo.world))
    = [(SUCCESS, "Thanks for voting! You selected 3 choices.")] ∧
  Demo.counters (snd (vote (Demo.post [10; 11; 12]%Z) 1 Demo.world))
    = [(10, 5); (11, 8); (12, 1); (20, 0)]%Z.
Proof. split; vm_compute; reflexivity. Qed.

(** Row 10 is updated before the update of row 12 fails; the transaction
    takes the update of row 10 back. *)
Example demo_rollback :
  Demo.counters
    (snd (for_each (selected Demo.faulty 1 [10; 12]%Z)
            (λ choice, Choice_objects_filter_pk_update (pk choice)) Demo.faulty))
    = [(10, 5); (11, 7); (12, 0); (20, 0)]%Z ∧
  vote (Demo.post [10; 12]%Z) 1 Demo.faulty = (Raise DatabaseError, Demo.faulty).
Proof. split; vm_compute; reflexivity. Qed.

(** The duplicate-vote guard comes before the validation of the choices. *)
Example demo_returning_session :
  fst (vote (Demo.post [11%Z]) 1 Demo.returning)
    = Return (HttpResponseRedirect (reverse "polls:results" [1%Z])) ∧
  fst (vote (Demo.post []) 1 Demo.returning)
    = Return (HttpResponseRedirect (reverse "polls:results" [1%Z])) ∧
  messages (snd (vote (Demo.post []) 1 Demo.returning))
    = [(WARNING, "You have already voted on this question.")] ∧
  Demo.counters (snd (vote (Demo.post [11%Z]) 1 Demo.returning))
    = [(10, 4); (11, 7); (12, 0); (20, 0)]%Z.
Proof. repeat split; vm_compute; reflexivity. Qed.

Example demo_foreign_choice :
  fst (vote (Demo.post [20%Z]) 1 Demo.world)
    = Return (error_page 1 {| question_text := "Tabs or spaces?"; pub_date := 100 |}) ∧
  Demo.counters (snd (vote (Demo.post [20%Z]) 1 Demo.world))
    = [(10, 4); (11, 7); (12, 0); (20, 0)]%Z.
Proof. split; vm_compute; reflexivity. Qed.

(** ** The claims *)

Ltac closed_decision := apply (bool_decide_unpack _); vm_compute; exact I.

(** C1. For a published question and a single valid choice of it, a POST
    submission from a session that has not yet voted on the question ends in
    the redirect, has added exactly 1 to the counter of that choice and has
    left every other choice as it was. The storage engine is taken to apply
    the update; C2 covers the one that fails. *)
Theorem vote_single_choice request qid w k :
  method request = "POST" → published w qid → qid ∉ voted_questions w →
  submitted request = [k] → valid_choice w qid k →
  storage_fault w k = false →
  ∃ w' v,
    vote request qid w = (Return (HttpResponseRedirect (results_url qid)), w') ∧
    counter w k = Some v ∧ counter w' k = Some (v + 1)%Z ∧
    ∀ k', k' ≠ k → Choice_objects (db w') !! k' = Choice_objects (db w) !! k'.
Proof.
  intros HP Hpub Hv Hids Hval Hok.
  destruct (counter_voted_world_selected w qid [k] k) as (v & Hc & Hc');
    [apply list_elem_of_here|done|].
  exists (voted_world w qid [k]), v. repeat split; try done.
  - rewrite <- Hids. apply vote_valid; rewrite ?Hids; try done.
    + apply NoDup_singleton.
    + by intros k' ->%list_elem_of_singleton.
    + by intros k' ->%list_elem_of_singleton.
  - intros k' Hne. apply lookup_voted_world_other.
    by intros [->%list_elem_of_singleton _].
Qed.

Lemma vote_single_choice_witness :
  method (Demo.post [10%Z]) = "POST" ∧ published Demo.world 1 ∧
  valid_choice Demo.world 1 10 ∧
  ∃ w' v,
    vote (Demo.post [10%Z]) 1 Demo.world
      = (Return (HttpResponseRedirect (results_url 1)), w') ∧
    counter Demo.world 10 = Some v ∧ counter w' 10 = Some (v + 1)%Z ∧
    ∀ k', k' ≠ 10%Z →
      Choice_objects (db w') !! k' = Choice_objects (db Demo.world) !! k'.
Proof.
  assert (published Demo.world 1) as Hpub.
  { eexists. split; [reflexivity|]. simpl. lia. }
  assert (valid_choice Demo.world 1 10) as Hval.
  { eexists. split; reflexivity. }
  split; [reflexivity|]. split; [exact Hpub|]. split; [exact Hval|].
  apply (vote_single_choice (Demo.post [10%Z]) 1 Demo.world 10).
  - reflexivity.
  - exact Hpub.
  - closed_decision.
  - reflexivity.
  - exact Hval.
  - reflexivity.
Defined.

(** C3. A request whose method is not POST is answered with the
    method-not-allowed response and leaves the whole world as it was: no
    counter, no session, no message changes. *)
Theorem vote_method_not_allowed request qid w :
  method request ≠ "POST" →
  vote request qid w = (Return (HttpResponseNotAllowed ["POST"]), w).
Proof. apply vote_not_POST. Qed.

Lemma vote_method_not_allowed_witness :
  method Demo.get ≠ "POST" ∧
  vote Demo.get 1 Demo.world = (Return (HttpResponseNotAllowed ["POST"]), Demo.world).
Proof.
  assert (method Demo.get ≠ "POST") as H by closed_decision.
  split; [exact H|]. apply (vote_method_not_allowed Demo.get 1 Demo.world H).
Defined.

(** C4. A POST submission to a question that does not exist, or whose
    publication timestamp is in the future, ends in [Http404] whatever the
    request submits, and leaves the whole world as it was. *)
Theorem vote_question_not_found request qid w :
  method request = "POST" →
  Question_objects (db w) !! qid = None ∨
    (∃ q, Question_objects (db w) !! qid = Some q ∧ (now w < pub_date q)%Z) →
  vote request qid w = (Raise Http404, w).
Proof.
  intros HP Hq. apply vote_not_found; [done|].
  intros (q & Hq' & Hd). destruct Hq as [Hq|(q' & Hq & Hd')]; [congruence|].
  assert (q' = q) as -> by congruence. lia.
Qed.

Lemma vote_question_not_found_witness :
  (∃ q, Question_objects (db Demo.world) !! 2%Z = Some q ∧ (now Demo.world < pub_date q)%Z) ∧
  valid_choice Demo.world 2 20 ∧
  vote (Demo.post [20%Z]) 2 Demo.world = (Raise Http404, Demo.world).
Proof.
  assert (∃ q, Question_objects (db Demo.world) !! 2%Z = Some q
               ∧ (now Demo.world < pub_date q)%Z) as Hq.
  { eexists. split; [reflexivity|]. simpl. lia. }
  split; [exact Hq|]. split; [eexists; split; reflexivity|].
  apply (vote_question_not_found (Demo.post [20%Z]) 2 Demo.world).
  - reflexivity.
  - right. exact Hq.
Defined.

(** C2. The increments of a valid submission of several choices are one
    transaction. Either the storage engine applies every update, and then
    the counter of every selected choice is exactly 1 higher, every other
    choice is as it was and the vote is recorded; or an update fails (the
    ones before it having been applied), and then the handler ends in the
    storage error with the whole world as it was on entry: no counter has
    moved and the session is not written. *)
Theorem vote_all_or_nothing request qid w :
  method request = "POST" → published w qid → qid ∉ voted_questions w →
  submitted request ≠ [] → NoDup (submitted request) →
  (∀ k, k ∈ submitted request → valid_choice w qid k) →
  (storage_ok w (submitted request) ∧
   ∃ w', vote request qid w = (Return (HttpResponseRedirect (results_url qid)), w') ∧
     (∀ k, k ∈ submitted request →
        ∃ v, counter w k = Some v ∧ counter w' k = Some (v + 1)%Z) ∧
     (∀ k, k ∉ submitted request →
        Choice_objects (db w') !! k = Choice_objects (db w) !! k) ∧
     voted_questions w' = voted_questions w ++ [qid])
  ∨
  ((∃ k, k ∈ submitted request ∧ storage_fault w k = true) ∧
   vote request qid w = (Raise DatabaseError, w)).
Proof.
  intros HP Hpub Hv Hne Hnd Hval.
  destruct (storage_ok_dec w (submitted request)) as [Hok|(k & Hk & Hf)].
  - left. split; [done|]. exists (voted_world w qid (submitted request)).
    split; [by apply vote_valid|]. split; [|split].
    + intros k Hk. apply counter_voted_world_selected; auto.
    + intros k Hk. apply lookup_voted_world_other. by intros [? _].
    + apply voted_questions_voted_world.
  - right. split; [by exists k|].
    destruct Hpub as (q & Hq & Hd). apply (vote_valid_fault _ _ _ q k); try done.
    + by apply length_selected.
    + apply elem_of_pk_selected. auto.
Qed.

Lemma vote_all_or_nothing_witness :
  2 ≤ length (submitted (Demo.post [10; 12]%Z)) ∧
  counter (snd (for_each (selected Demo.faulty 1 [10; 12]%Z)
             (λ choice, Choice_objects_filter_pk_update (pk choice)) Demo.faulty)) 10
    = Some 5%Z ∧
  ((storage_ok Demo.faulty (submitted (Demo.post [10; 12]%Z)) ∧
    ∃ w', vote (Demo.post [10; 12]%Z) 1 Demo.faulty
            = (Return (HttpResponseRedirect (results_url 1)), w') ∧
      (∀ k, k ∈ submitted (Demo.post [10; 12]%Z) →
         ∃ v, counter Demo.faulty k = Some v ∧ counter w' k = Some (v + 1)%Z) ∧
      (∀ k, k ∉ submitted (Demo.post [10; 12]%Z) →
         Choice_objects (db w') !! k = Choice_objects (db Demo.faulty) !! k) ∧
      voted_questions w' = voted_questions Demo.faulty ++ [1%Z])
   ∨
   ((∃ k, k ∈ submitted (Demo.post [10; 12]%Z) ∧ storage_fault Demo.faulty k = true) ∧
    vote (Demo.post [10; 12]%Z) 1 Demo.faulty = (Raise DatabaseError, Demo.faulty))).
Proof.
  split; [vm_compute; lia|]. split; [vm_compute; reflexivity|].
  apply (vote_all_or_nothing (Demo.post [10; 12]%Z) 1 Demo.faulty).
  - reflexivity.
  - eexists. split; [reflexivity|]. simpl. lia.
  - closed_decision.
  - discriminate.
  - closed_decision.
  - intros k Hk. apply elem_of_cons in Hk as [->|Hk].
    + eexists. split; reflexivity.
    + apply list_elem_of_singleton in Hk as ->. eexists. split; reflexivity.
Defined.

(** C5. The first valid vote of a session on a published question raises
    the counters of the selected choices and records the question in the
    session's vote record; any later POST submission to that question with
    that session, whatever it selects, is answered with the warning and the
    redirect to the results, and changes neither the database nor the
    session. *)
Theorem vote_twice first second qid w :
  method first = "POST" → published w qid → qid ∉ voted_questions w →
  submitted first ≠ [] → NoDup (submitted first) →
  (∀ k, k ∈ submitted first → valid_choice w qid k) →
  storage_ok w (submitted first) →
  method second = "POST" →
  ∃ w1,
    vote first qid w = (Return (HttpResponseRedirect (results_url qid)), w1) ∧
    (∀ k, k ∈ submitted first →
       ∃ v, counter w k = Some v ∧ counter w1 k = Some (v + 1)%Z) ∧
    voted_questions w1 = voted_questions w ++ [qid] ∧
    ∀ w2, db w2 = db w1 → session w2 = session w1 → (now w1 ≤ now w2)%Z →
      ∃ w3,
        vote second qid w2 = (Return (HttpResponseRedirect (results_url qid)), w3) ∧
        messages w3 =
          messages w2 ++ [(WARNING, "You have already voted on this question.")] ∧
        db w3 = db w2 ∧ session w3 = session w2.
Proof.
  intros HP Hpub Hv Hne Hnd Hval Hok HP2.
  exists (voted_world w qid (submitted first)).
  split; [by apply vote_valid|]. split; [|split].
  - intros k Hk. apply counter_voted_world_selected; auto.
  - apply voted_questions_voted_world.
  - intros w2 Hdb Hs Hnow. eexists. split; [apply vote_already_voted|]; try done.
    + destruct Hpub as (q & Hq & Hd). exists q. rewrite Hdb. split; [done|].
      change (now (voted_world w qid (submitted first))) with (now w) in Hnow. lia.
    + unfold voted_questions. rewrite Hs.
      fold (voted_questions (voted_world w qid (submitted first))).
      rewrite voted_questions_voted_world. set_solver.
Qed.

Lemma vote_twice_witness :
  ∃ w1,
    vote (Demo.post [10; 12]%Z) 1 Demo.world
      = (Return (HttpResponseRedirect (results_url 1)), w1) ∧
    (∀ k, k ∈ submitted (Demo.post [10; 12]%Z) →
       ∃ v, counter Demo.world k = Some v ∧ counter w1 k = Some (v + 1)%Z) ∧
    voted_questions w1 = voted_questions Demo.world ++ [1%Z] ∧
    ∀ w2, db w2 = db w1 → session w2 = session w1 → (now w1 ≤ now w2)%Z →
      ∃ w3,
        vote (Demo.post [11%Z]) 1 w2
          = (Return (HttpResponseRedirect (results_url 1)), w3) ∧
        messages w3 =
          messages w2 ++ [(WARNING, "You have already voted on this question.")] ∧
        db w3 = db w2 ∧ session w3 = session w2.
Proof.
  apply (vote_twice (Demo.post [10; 12]%Z) (Demo.post [11%Z]) 1 Demo.world).
  - reflexivity.
  - eexists. split; [reflexivity|]. simpl. lia.
  - closed_decision.
  - discriminate.
  - closed_decision.
  - intros k Hk. apply elem_of_cons in Hk as [->|Hk].
    + eexists. split; reflexivity.
    + apply list_elem_of_singleton in Hk as ->. eexists. split; reflexivity.
  - intros k _. reflexivity.
  - reflexivity.
Defined.




(** Whatever the question and the session, a submission with such a
    selection, or with a repeated identifier, moves no counter and does not
    write the session. *)
Lemma vote_bad_selection_inert request qid w :
  submitted request = [] ∨
    (∃ k, k ∈ submitted request ∧ ¬ valid_choice w qid k) ∨
    ¬ NoDup (submitted request) →
  db (snd (vote request qid w)) = db w ∧
  session (snd (vote request qid w)) = session w.
Proof. intros Hbad. by apply vote_bad_selection_no_update, bad_selection. Qed.

(** C7. A valid submission, its updates applied, ends in the redirect to
    the results of the target question and adds one success message: the
    plain thanks for exactly one selected choice, and for N ≥ 2 selected
    choices a text that names N and differs from the plain one. *)
Theorem vote_success_message request qid w :
  method request = "POST" → published w qid → qid ∉ voted_questions w →
  submitted request ≠ [] → NoDup (submitted request) →
  (∀ k, k ∈ submitted request → valid_choice w qid k) →
  storage_ok w (submitted request) →
  ∃ w' text,
    vote request qid w =
      (Return (HttpResponseRedirect (reverse "polls:results" [qid])), w') ∧
    messages w' = messages w ++ [(SUCCESS, text)] ∧
    1 ≤ length (submitted request) ∧
    (length (submitted request) = 1 → text = "Thanks for voting!") ∧
    (2 ≤ length (submitted request) →
     text = "Thanks for voting! You selected "
              +:+ pretty (length (submitted request)) +:+ " choices." ∧
     text ≠ "Thanks for voting!").
Proof.
  intros HP Hpub Hv Hne Hnd Hval Hok.
  exists (voted_world w qid (submitted request)),
         (thanks (length (submitted request))).
  split; [by apply vote_valid|]. split; [|split; [|split]].
  - rewrite messages_voted_world.
    by rewrite (proj2 (length_selected w qid (submitted request)) (conj Hnd Hval)).
  - destruct (submitted request); [done|simpl; lia].
  - intros ->. done.
  - intros Hn. apply thanks_many. lia.
Qed.

Lemma vote_success_message_witness :
  ∃ w' text,
    vote (Demo.post [10; 11; 12]%Z) 1 Demo.world =
      (Return (HttpResponseRedirect (reverse "polls:results" [1%Z])), w') ∧
    messages w' = messages Demo.world ++ [(SUCCESS, text)] ∧
    1 ≤ length (submitted (Demo.post [10; 11; 12]%Z)) ∧
    (length (submitted (Demo.post [10; 11; 12]%Z)) = 1 → text = "Thanks for voting!") ∧
    (2 ≤ length (submitted (Demo.post [10; 11; 12]%Z)) →
     text = "Thanks for voting! You selected "
              +:+ pretty (length (submitted (Demo.post [10; 11; 12]%Z))) +:+ " choices." ∧
     text ≠ "Thanks for voting!").
Proof.
  apply (vote_success_message (Demo.post [10; 11; 12]%Z) 1 Demo.world).
  - reflexivity.
  - eexists. split; [reflexivity|]. simpl. lia.
  - closed_decision.
  - discriminate.
  - closed_decision.
  - intros k Hk. apply elem_of_cons in Hk as [->|Hk]; [eexists; split; reflexivity|].
    apply elem_of_cons in Hk as [->|Hk]; [eexists; split; reflexivity|].
    apply list_elem_of_singleton in Hk as ->. eexists. split; reflexivity.
  - intros k _. reflexivity.
Defined.

(** C8. In every run of the handler, whatever the request and however it
    ends, every choice is still there with either the row it had or that
    row after one [F("votes") + 1]: its counter has not gone down, and a
    counter that was not negative is not negative. *)
Theorem votes_never_decrease request qid w k c :
  Choice_objects (db w) !! k = Some c →
  ∃ c', Choice_objects (db (snd (vote request qid w))) !! k = Some c' ∧
    (c' = c ∨ c' = F_votes_plus_1 c) ∧
    (votes c ≤ votes c')%Z ∧
    ((0 ≤ votes c)%Z → (0 ≤ votes c')%Z).
Proof.
  intros Hc. destruct (vote_row_votes request qid w k c Hc) as (c' & Hc' & Hcases).
  exists c'. split; [done|]. split; [done|].
  destruct Hcases as [->| ->]; simpl; lia.
Qed.

Lemma votes_never_decrease_witness :
  ∃ c', Choice_objects (db (snd (vote (Demo.post [10; 12]%Z) 1 Demo.world))) !! 12%Z
          = Some c' ∧
    (c' = {| choice_text := "Both"; question := 1; votes := 0 |} ∨
     c' = F_votes_plus_1 {| choice_text := "Both"; question := 1; votes := 0 |}) ∧
    (votes {| choice_text := "Both"; question := 1; votes := 0 |} ≤ votes c')%Z ∧
    ((0 ≤ votes {| choice_text := "Both"; question := 1; votes := 0 |})%Z →
     (0 ≤ votes c')%Z).
Proof.
  apply (votes_never_decrease (Demo.post [10; 12]%Z) 1 Demo.world 12).
  reflexivity.
Defined.

(** The same over any number of runs: along requests served one after the
    other no counter ever goes down. *)
Lemma served_votes_monotone w w' k c :
  served w w' → Choice_objects (db w) !! k = Some c →
  ∃ c', Choice_objects (db w') !! k = Some c' ∧
    (votes c ≤ votes c')%Z ∧
    choice_text c' = choice_text c ∧ question c' = question c.
Proof.
  intros Hs Hc. induction Hs as [w|w w1 request qid w2 Hs IH Hdb].
  - exists c. by repeat split.
  - destruct (IH Hc) as (c1 & Hc1 & Hle & Ht & Hq).
    destruct (vote_row_votes request qid w1 k c1 Hc1) as (c2 & Hc2 & Hcases).
    exists c2. rewrite Hdb. split; [done|].
    destruct Hcases as [->| ->]; simpl; repeat split; try done; lia.
Qed.



(** C10. The handler keeps the session's vote record free of duplicates:
    when the list it reads at entry has none, the list in the session at
    exit has none, the question being appended only when the guard has
    found it absent. *)
Theorem voted_questions_NoDup request qid w :
  NoDup (voted_questions w) →
  NoDup (voted_questions (snd (vote request qid w))).
Proof.
  intros Hnd. destruct (vote_voted_questions request qid w) as [->|[Hv ->]]; [done|].
  apply NoDup_app. split; [done|]. split; [|apply NoDup_singleton].
  by intros k Hk ->%list_elem_of_singleton.
Qed.

Lemma voted_questions_NoDup_witness :
  NoDup (voted_questions Demo.world) ∧
  voted_questions (snd (vote (Demo.post [11%Z]) 1 Demo.world)) = [1%Z] ∧
  NoDup (voted_questions (snd (vote (Demo.post [11%Z]) 1 Demo.world))).
Proof.
  assert (NoDup (voted_questions Demo.world)) as H by closed_decision.
  split; [exact H|]. split; [vm_compute; reflexivity|].
  apply (voted_questions_NoDup (Demo.post [11%Z]) 1 Demo.world H).
Defined.


(** ** Further properties of the vote handler *)

Lemma selected_Permutation w qid ids1 ids2 :
  ids1 ≡ₚ ids2 → selected w qid ids1 = selected w qid ids2.
Proof.
  intros HP. unfold selected. f_equal. apply list_filter_iff.
  intros [k c]. simpl. by rewrite HP.
Qed.

(** X1. The order in which a submission lists its identifiers does not
    matter: two requests of the same method whose lists are permutations
    of each other get the same response and leave the same world. *)
Theorem vote_submission_order r1 r2 qid w :
  method r1 = method r2 → submitted r1 ≡ₚ submitted r2 →
  vote r1 qid w = vote r2 qid w.
Proof.
  intros Hm HP.
  pose proof (selected_Permutation w qid _ _ HP) as Hsel.
  pose proof (Permutation_length HP) as Hlen.
  destruct (vote_paths r1 qid w) as [HP1|HP1 Hn|HP1 Hpub Hv|q HP1 Hq Hd Hv Hbad
    |k HP1 Hpub Hv Hne Hl Hk Hf|HP1 Hpub Hv Hne Hl Hok]; symmetry.
  - apply vote_not_POST. congruence.
  - apply vote_not_found; [congruence|done].
  - apply vote_already_voted; [congruence|done..].
  - apply vote_invalid; try done; [congruence|].
    destruct Hbad as [He|Hb].
    + left. rewrite He in HP. by apply Permutation_nil_l in HP.
    + right. congruence.
  - destruct Hpub as (q & Hq & Hd).
    apply (vote_valid_fault _ _ _ q k); try done; try congruence.
    intros He. rewrite He in HP. by apply Permutation_nil_r in HP.
  - destruct Hpub as (q & Hq & Hd).
    replace (voted_world w qid (submitted r1)) with (voted_world w qid (submitted r2))
      by (unfold voted_world; by rewrite Hsel).
    apply (vote_valid_ok _ _ _ q); try done; try congruence.
    + intros He. rewrite He in HP. by apply Permutation_nil_r in HP.
    + by rewrite <- Hsel.
Qed.

Lemma vote_submission_order_witness :
  submitted (Demo.post [10; 12]%Z) ≡ₚ submitted (Demo.post [12; 10]%Z) ∧
  vote (Demo.post [10; 12]%Z) 1 Demo.world = vote (Demo.post [12; 10]%Z) 1 Demo.world.
Proof.
  assert (submitted (Demo.post [10; 12]%Z) ≡ₚ submitted (Demo.post [12; 10]%Z)) as HP.
  { apply perm_swap. }
  split; [exact HP|].
  apply (vote_submission_order (Demo.post [10; 12]%Z) (Demo.post [12; 10]%Z) 1 Demo.world).
  - reflexivity.
  - exact HP.
Defined.

(** X2. Past the three gates and on a storage engine that applies the
    updates, a submission is accepted (answered with the redirect) exactly
    when its list of identifiers is not empty, names no identifier twice
    and names only choices of the question. *)
Theorem vote_accepted_iff request qid w :
  method request = "POST" → published w qid → qid ∉ voted_questions w →
  storage_ok w (submitted request) →
  fst (vote request qid w) = Return (HttpResponseRedirect (reverse "polls:results" [qid]))
  ↔ submitted request ≠ [] ∧ NoDup (submitted request) ∧
    ∀ k, k ∈ submitted request → valid_choice w qid k.
Proof.
  intros HP Hpub Hv Hok. split.
  - intros Hr.
    destruct (decide (submitted request = [])) as [He|He].
    { destruct Hpub as (q & Hq & Hd).
      rewrite (vote_invalid _ _ _ q) in Hr by auto. discriminate Hr. }
    destruct (decide (length (selected w qid (submitted request))
                      = length (submitted request))) as [Hl|Hl].
    + split; [done|]. by apply length_selected.
    + destruct Hpub as (q & Hq & Hd).
      rewrite (vote_invalid _ _ _ q) in Hr by auto. discriminate Hr.
  - intros (Hne & Hnd & Hval). by rewrite vote_valid.
Qed.

Lemma vote_accepted_iff_witness :
  fst (vote (Demo.post [10; 12]%Z) 1 Demo.world)
    = Return (HttpResponseRedirect (reverse "polls:results" [1%Z]))
  ↔ submitted (Demo.post [10; 12]%Z) ≠ [] ∧ NoDup (submitted (Demo.post [10; 12]%Z)) ∧
    ∀ k, k ∈ submitted (Demo.post [10; 12]%Z) → valid_choice Demo.world 1 k.
Proof.
  apply (vote_accepted_iff (Demo.post [10; 12]%Z) 1 Demo.world).
  - reflexivity.
  - eexists. split; [reflexivity|]. simpl. lia.
  - closed_decision.
  - intros k _. reflexivity.
Defined.

Lemma vote_exception request qid w e w' :
  vote request qid w = (Raise e, w') →
  w' = w ∧
  (e = Http404 ∧ method request = "POST" ∧ ¬ published w qid
   ∨ e = DatabaseError ∧
     ∃ k, k ∈ submitted request ∧ valid_choice w qid k ∧ storage_fault w k = true).
Proof.
  intros E.
  destruct (vote_paths request qid w) as [HP1|HP1 Hn|HP1 Hpub Hv|q HP1 Hq Hd Hv Hbad
    |k HP1 Hpub Hv Hne Hl Hk Hf|HP1 Hpub Hv Hne Hl Hok]; try discriminate E;
    injection E as <- <-; (split; [done|]).
  - left. auto.
  - right. split; [done|]. exists k. apply elem_of_pk_selected in Hk as [? ?]. auto.
Qed.



(** X4. A run never drops a message and adds at most one: none when the
    method is refused or the run ends in an exception, one in every other
    case. *)
Theorem vote_messages (request : HttpRequest) (qid : Z) (w : World) :
  ∃ l, messages (snd (vote request qid w)) = messages w ++ l ∧
       length l ≤ 1 ∧
       (l = [] ↔ method request ≠ "POST" ∨ ∃ e, fst (vote request qid w) = Raise e).
Proof.
  destruct (vote_paths request qid w) as [HP1|HP1 Hn|HP1 Hpub Hv|q HP1 Hq Hd Hv Hbad
    |k HP1 Hpub Hv Hne Hl Hk Hf|HP1 Hpub Hv Hne Hl Hok]; cbn [fst snd].
  - exists []. rewrite app_nil_r. split; [done|]. split; [simpl; lia|]. split; auto.
  - exists []. rewrite app_nil_r. split; [done|]. split; [simpl; lia|]. split; eauto.
  - eexists [_]. split; [done|]. split; [simpl; lia|]. split; [done|].
    intros [?|[e ?]]; done.
  - eexists [_]. split; [done|]. split; [simpl; lia|]. split; [done|].
    intros [?|[e ?]]; done.
  - exists []. rewrite app_nil_r. split; [done|]. split; [simpl; lia|]. split; eauto.
  - eexists [_]. split; [done|]. split; [simpl; lia|]. split; [done|].
    intros [?|[e ?]]; done.
Qed.

(** X5. Of the session a run touches the vote record only, and only by
    appending: every other key holds what it held, and the record read at
    entry is a prefix of the record at exit. *)
Theorem vote_session_append_only (request : HttpRequest) (qid : Z) (w : World) :
  (∀ key, key ≠ "voted_questions" →
     session (snd (vote request qid w)) !! key = session w !! key) ∧
  voted_questions w `prefix_of` voted_questions (snd (vote request qid w)).
Proof.
  destruct (vote_world request qid w) as [[_ Hs]|(Hv & _ & _ & ->)].
  - split; [by rewrite Hs|]. unfold voted_questions. by rewrite Hs.
  - split.
    + intros key Hk. unfold voted_world. cbn [session set_messages set_session].
      by rewrite lookup_insert_ne.
    + rewrite voted_questions_voted_world. by apply prefix_app_r.
Qed.

(** X6. A run creates and deletes nothing in the database: the Question
    table is as it was, the Choice table has the keys it had, and every
    choice keeps its text and its question. *)
Theorem vote_keeps_rows (request : HttpRequest) (qid : Z) (w : World) :
  Question_objects (db (snd (vote request qid w))) = Question_objects (db w) ∧
  dom (Choice_objects (db (snd (vote request qid w)))) = dom (Choice_objects (db w)) ∧
  ∀ k, choice_text <$> Choice_objects (db (snd (vote request qid w))) !! k
         = choice_text <$> Choice_objects (db w) !! k ∧
       question <$> Choice_objects (db (snd (vote request qid w))) !! k
         = question <$> Choice_objects (db w) !! k.
Proof.
  assert (∀ k, choice_text <$> Choice_objects (db (snd (vote request qid w))) !! k
                 = choice_text <$> Choice_objects (db w) !! k ∧
               question <$> Choice_objects (db (snd (vote request qid w))) !! k
                 = question <$> Choice_objects (db w) !! k) as Hrows.
  { intros k. destruct (vote_row request qid w k) as [->| ->]; [done|].
    by destruct (Choice_objects (db w) !! k). }
  split; [|split; [|done]].
  - destruct (vote_world request qid w) as [[-> _]|(_ & _ & _ & ->)]; done.
  - apply set_eq. intros k. rewrite !elem_of_dom.
    destruct (Hrows k) as [Ht _]. rewrite <- !fmap_is_Some with (f := choice_text).
    by rewrite Ht.
Qed.

(** X7. A run leaves alone every choice the request does not submit and
    every choice of another question than the one voted on, submitted or
    not. *)
Theorem vote_other_choices request qid w k c :
  Choice_objects (db w) !! k = Some c →
  k ∉ submitted request ∨ question c ≠ qid →
  Choice_objects (db (snd (vote request qid w))) !! k = Some c.
Proof.
  intros Hc Hother.
  destruct (vote_world request qid w) as [[-> _]|(_ & _ & _ & ->)]; [done|].
  rewrite lookup_voted_world_other; [done|].
  intros [Hk (c' & Hc' & Hq)]. destruct Hother as [?|Hne]; [done|]. congruence.
Qed.

Lemma vote_other_choices_witness :
  (11%Z ∉ submitted (Demo.post [10; 12]%Z)) ∧
  Choice_objects (db (snd (vote (Demo.post [10; 12]%Z) 1 Demo.world))) !! 11%Z
    = Some {| choice_text := "Spaces"; question := 1; votes := 7 |}.
Proof.
  assert (11%Z ∉ submitted (Demo.post [10; 12]%Z)) as H by closed_decision.
  split; [exact H|].
  apply (vote_other_choices (Demo.post [10; 12]%Z) 1 Demo.world 11).
  - reflexivity.
  - left. exact H.
Defined.

(** *** The votes of a question *)

Lemma tally_Permutation qid l1 l2 : l1 ≡ₚ l2 → tally qid l1 = tally qid l2.
Proof.
  unfold tally. induction 1 as [|x l1 l2 _ IH|x y l|l1 l2 l3 _ IH1 _ IH2]; simpl.
  - done.
  - by rewrite IH.
  - repeat case_decide; lia.
  - congruence.
Qed.

Lemma tally_alter qid' (m : gmap Z Choice) k c :
  m !! k = Some c →
  tally qid' (map_to_list (alter F_votes_plus_1 k m)) =
    (tally qid' (map_to_list m) + (if decide (question c = qid') then 1 else 0))%Z.
Proof.
  intros Hc.
  assert (alter F_votes_plus_1 k m = <[k := F_votes_plus_1 c]> (delete k m)) as ->.
  { apply map_eq. intros i. destruct (decide (i = k)) as [->|Hne].
    - by rewrite lookup_alter_eq, lookup_insert_eq, Hc.
    - by rewrite lookup_alter_ne, lookup_insert_ne, lookup_delete_ne. }
  rewrite (tally_Permutation _ _ _
             (map_to_list_insert (delete k m) k (F_votes_plus_1 c) (lookup_delete_eq m k))).
  rewrite <- (tally_Permutation _ _ _ (map_to_list_delete m k c Hc)).
  simpl. case_decide; lia.
Qed.

Lemma tally_apply_votes qid qid' ks (m : gmap Z Choice) :
  (∀ k, k ∈ ks → ∃ c, m !! k = Some c ∧ question c = qid) →
  tally qid' (map_to_list (apply_votes ks m)) =
    (tally qid' (map_to_list m) + (if decide (qid = qid') then Z.of_nat (length ks) else 0))%Z.
Proof.
  unfold apply_votes. revert m. induction ks as [|k0 ks IH]; intros m Hval.
  - simpl. case_decide; simpl; lia.
  - destruct (Hval k0) as (c0 & Hc0 & Hq0); [apply list_elem_of_here|].
    cbn [foldl]. rewrite IH.
    + rewrite (tally_alter _ _ _ _ Hc0). rewrite Hq0.
      case_decide; cbn [length]; lia.
    + intros k Hk. destruct (Hval k) as (c & Hc & Hq); [by apply list_elem_of_further|].
      destruct (decide (k = k0)) as [->|Hne].
      * rewrite lookup_alter_eq, Hc0. eexists. split; [done|]. simpl. congruence.
      * rewrite lookup_alter_ne by done. eauto.
Qed.

(** X8. An accepted submission adds to the votes of its question exactly
    as many votes as it names choices. *)
Theorem vote_question_votes request qid w :
  method request = "POST" → published w qid → qid ∉ voted_questions w →
  submitted request ≠ [] → NoDup (submitted request) →
  (∀ k, k ∈ submitted request → valid_choice w qid k) →
  storage_ok w (submitted request) →
  question_votes (snd (vote request qid w)) qid =
    (question_votes w qid + Z.of_nat (length (submitted request)))%Z.
Proof.
  intros HP Hpub Hv Hne Hnd Hval Hok. rewrite vote_valid by done. cbn [snd].
  unfold question_votes, voted_world.
  cbn [db set_messages set_session set_choices Choice_objects].
  rewrite (tally_apply_votes qid qid).
  - rewrite decide_True by done. rewrite length_fmap.
    by rewrite (proj2 (length_selected w qid (submitted request)) (conj Hnd Hval)).
  - intros k Hk. by apply elem_of_pk_selected in Hk as [_ ?].
Qed.

Lemma vote_question_votes_witness :
  question_votes Demo.world 1 = 11%Z ∧
  question_votes (snd (vote (Demo.post [10; 12]%Z) 1 Demo.world)) 1 =
    (question_votes Demo.world 1 + Z.of_nat (length (submitted (Demo.post [10; 12]%Z))))%Z.
Proof.
  split; [vm_compute; reflexivity|].
  apply (vote_question_votes (Demo.post [10; 12]%Z) 1 Demo.world).
  - reflexivity.
  - eexists. split; [reflexivity|]. simpl. lia.
  - closed_decision.
  - discriminate.
  - closed_decision.
  - intros k Hk. apply elem_of_cons in Hk as [->|Hk].
    + eexists. split; reflexivity.
    + apply list_elem_of_singleton in Hk as ->. eexists. split; reflexivity.
  - intros k _. reflexivity.
Defined.

(** X9. Whatever a request to vote on one question submits, the votes of
    every other question stay what they were. *)
Theorem vote_other_question_votes request qid w qid' :
  qid' ≠ qid →
  question_votes (snd (vote request qid w)) qid' = question_votes w qid'.
Proof.
  intros Hne. unfold question_votes.
  destruct (vote_world request qid w) as [[-> _]|(_ & _ & _ & ->)]; [done|].
  unfold voted_world. cbn [db set_messages set_session set_choices Choice_objects].
  rewrite (tally_apply_votes qid qid').
  - rewrite decide_False by done. lia.
  - intros k Hk. by apply elem_of_pk_selected in Hk as [_ ?].
Qed.

Lemma vote_other_question_votes_witness :
  question_votes (snd (vote (Demo.post [10; 12]%Z) 1 Demo.world)) 2
    = question_votes Demo.world 2.
Proof.
  apply (vote_other_question_votes (Demo.post [10; 12]%Z) 1 Demo.world 2).
  discriminate.
Defined.

(** *** Votes of several sessions *)

Lemma fresh_session_vote request qid w :
  method request = "POST" → published w qid →
  submitted request ≠ [] → NoDup (submitted request) →
  (∀ k, k ∈ submitted request → valid_choice w qid k) →
  storage_ok w (submitted request) →
  let w1 := snd (vote request qid (set_session ∅ w)) in
  published w1 qid ∧
  (∀ k, k ∈ submitted request → valid_choice w1 qid k) ∧
  storage_ok w1 (submitted request) ∧
  (∀ k, k ∈ submitted request → counter w1 k = (λ v, v + 1)%Z <$> counter w k) ∧
  (∀ k, k ∉ submitted request → counter w1 k = counter w k).
Proof.
  intros HP Hpub Hne Hnd Hval Hok w1. subst w1.
  rewrite vote_valid; try done; [|apply not_elem_of_nil].
  cbn [snd]. split; [done|]. split; [|split; [done|split]].
  - intros k Hk. destruct (Hval k Hk) as (c & Hc & Hq).
    exists (F_votes_plus_1 c). split; [|done].
    rewrite lookup_voted_world_selected; [|done|by apply Hval].
    cbn [db set_session]. by rewrite Hc.
  - intros k Hk. unfold counter.
    rewrite lookup_voted_world_selected; [|done|by apply Hval].
    cbn [db set_session]. by destruct (Choice_objects (db w) !! k).
  - intros k Hk. unfold counter. rewrite lookup_voted_world_other; [done|].
    by intros [? _].
Qed.

(** X10. The duplicate-vote guard is per session and the increments add
    up: the same valid submission sent by [n] sessions that have not voted,
    one after the other, raises the counter of each selected choice by
    exactly [n] and leaves the other counters as they were. *)
Theorem fresh_sessions_all_counted n request qid w :
  method request = "POST" → published w qid →
  submitted request ≠ [] → NoDup (submitted request) →
  (∀ k, k ∈ submitted request → valid_choice w qid k) →
  storage_ok w (submitted request) →
  (∀ k, k ∈ submitted request →
     counter (votes_of_fresh_sessions n request qid w) k
       = (λ v, v + Z.of_nat n)%Z <$> counter w k) ∧
  (∀ k, k ∉ submitted request →
     counter (votes_of_fresh_sessions n request qid w) k = counter w k).
Proof.
  intros HP. revert w. induction n as [|n IH]; intros w Hpub Hne Hnd Hval Hok.
  - split; [|done]. intros k _. simpl. destruct (counter w k); simpl; [|done].
    f_equal. lia.
  - destruct (fresh_session_vote request qid w HP Hpub Hne Hnd Hval Hok)
      as (Hpub1 & Hval1 & Hok1 & Hin & Hout).
    destruct (IH _ Hpub1 Hne Hnd Hval1 Hok1) as [IHin IHout].
    cbn [votes_of_fresh_sessions]. split.
    + intros k Hk. rewrite IHin, Hin by done.
      destruct (counter w k); simpl; [|done]. f_equal. lia.
    + intros k Hk. by rewrite IHout, Hout.
Qed.

Lemma fresh_sessions_all_counted_witness :
  counter Demo.world 12 = Some 0%Z ∧
  (∀ k, k ∈ submitted (Demo.post [10; 12]%Z) →
     counter (votes_of_fresh_sessions 3 (Demo.post [10; 12]%Z) 1 Demo.world) k
       = (λ v, v + Z.of_nat 3)%Z <$> counter Demo.world k) ∧
  (∀ k, k ∉ submitted (Demo.post [10; 12]%Z) →
     counter (votes_of_fresh_sessions 3 (Demo.post [10; 12]%Z) 1 Demo.world) k
       = counter Demo.world k).
Proof.
  split; [reflexivity|].
  apply (fresh_sessions_all_counted 3 (Demo.post [10; 12]%Z) 1 Demo.world).
  - reflexivity.
  - eexists. split; [reflexivity|]. simpl. lia.
  - discriminate.
  - closed_decision.
  - intros k Hk. apply elem_of_cons in Hk as [->|Hk].
    + eexists. split; reflexivity.
    + apply list_elem_of_singleton in Hk as ->. eexists. split; reflexivity.
  - intros k _. reflexivity.
Defined.

(** ** Properties of the read-only views *)

Lemma elem_of_objects qs (o : Obj Question) :
  o ∈ objects qs ↔ qs_rows qs !! pk o = Some (fields o).
Proof.
  assert (objects qs ≡ₚ
          (λ kq, {| pk := kq.1; fields := kq.2 |}) <$> map_to_list (qs_rows qs)) as ->.
  { unfold objects. destruct (qs_ordering qs); [done|]. apply merge_sort_Permutation. }
  rewrite list_elem_of_fmap. split.
  - intros ([k q] & -> & H). by apply elem_of_map_to_list in H.
  - intros H. exists (pk o, fields o). split; [by destruct o|].
    by apply elem_of_map_to_list.
Qed.

Lemma NoDup_pk_objects qs : NoDup (pk <$> objects qs).
Proof.
  assert (pk <$> ((λ kq : Z * Question, {| pk := kq.1; fields := kq.2 |})
                    <$> map_to_list (qs_rows qs))
          = (map_to_list (qs_rows qs)).*1) as Hpk.
  { rewrite <- list_fmap_compose. by apply list_fmap_ext. }
  assert (pk <$> objects qs ≡ₚ (map_to_list (qs_rows qs)).*1) as ->.
  { rewrite <- Hpk. unfold objects. destruct (qs_ordering qs); [done|].
    by rewrite merge_sort_Permutation. }
  apply NoDup_fst_map_to_list.
Qed.

Lemma IndexView_get_queryset_eq icontains GET w :
  IndexView_get_queryset icontains GET w =
    (Return
       (let qs := {| qs_rows := filter (λ kq : Z * Question, (pub_date kq.2 ≤ now w)%Z)
                                  (Question_objects (db w));
                     qs_ordering := MinusPubDate |} in
        if truthy (GET !! "q")
        then qs_filter (search icontains (default "" (GET !! "q"))) qs
        else qs), w).
Proof. done. Qed.

Example demo_index :
  DemoViews.listed ∅ = [3; 4; 1]%Z ∧
  DemoViews.listed {[ "q" := "" ]} = [3; 4; 1]%Z ∧
  DemoViews.listed {[ "q" := "paces" ]} = [4; 1]%Z ∧
  DemoViews.listed {[ "q" := "3" ]} = [3]%Z.
Proof. repeat split; vm_compute; reflexivity. Qed.

(** X11. The index lists, without touching the world, exactly the
    published questions, each once; under a search, exactly those of them
    that the search condition accepts. *)
Theorem IndexView_lists_published icontains (GET : gmap string string) (w : World) :
  ∃ qs, IndexView_get_queryset icontains GET w = (Return qs, w) ∧
    NoDup (pk <$> objects qs) ∧
    ∀ o, o ∈ objects qs ↔
      Question_objects (db w) !! pk o = Some (fields o) ∧
      (pub_date (fields o) ≤ now w)%Z ∧
      (truthy (GET !! "q") →
       search icontains (default "" (GET !! "q")) (pk o, fields o)).
Proof.
  eexists. split; [apply IndexView_get_queryset_eq|].
  split; [apply NoDup_pk_objects|].
  intros o. rewrite elem_of_objects. cbn zeta.
  destruct (truthy (GET !! "q")); cbn [qs_rows qs_filter].
  - rewrite !map_lookup_filter_Some. cbn [fst snd]. split.
    + intros [[Hq Hd] Hs]. auto.
    + intros (Hq & Hd & Hs). split; [done|]. by apply Hs.
  - rewrite map_lookup_filter_Some. cbn [fst snd]. split.
    + intros [Hq Hd]. split; [done|]. split; [done|]. intros [].
    + intros (Hq & Hd & _). done.
Qed.

(** X12. The index is ordered most recent first, with or without a
    search. *)
Theorem IndexView_most_recent_first icontains (GET : gmap string string) (w : World) :
  ∃ qs, IndexView_get_queryset icontains GET w = (Return qs, w) ∧
    StronglySorted more_recent (objects qs).
Proof.
  eexists. split; [apply IndexView_get_queryset_eq|].
  cbn zeta. destruct (truthy (GET !! "q")); unfold objects; cbn [qs_ordering qs_filter];
    apply StronglySorted_merge_sort; apply _.
Qed.

(** X13. A search only narrows the index: what it lists is listed without
    the search too; and a request without [q], or with an empty [q], is no
    search at all. *)
Theorem IndexView_search_narrows icontains (GET : gmap string string) (w : World) :
  ∃ qs qs0,
    IndexView_get_queryset icontains GET w = (Return qs, w) ∧
    IndexView_get_queryset icontains ∅ w = (Return qs0, w) ∧
    objects qs ⊆ objects qs0 ∧
    (GET !! "q" = None ∨ GET !! "q" = Some "" → qs = qs0).
Proof.
  do 2 eexists. split; [apply IndexView_get_queryset_eq|].
  split; [apply IndexView_get_queryset_eq|]. rewrite lookup_empty. cbn zeta.
  cbn [truthy]. split.
  - intros o. rewrite !elem_of_objects.
    destruct (truthy (GET !! "q")); [|done]. cbn [qs_rows qs_filter].
    rewrite map_lookup_filter_Some. by intros [? _].
  - intros [-> | ->]; done.
Qed.

(** X14. The query that [get_context_data] keeps in the context for the
    pagination links reproduces the listing: a request carrying just that
    [q] gets the queryset of the original request. The rest of the context
    is what the parent class has put there. *)
Theorem IndexView_context_keeps_query icontains
    (super_context : gmap string ContextValue) (GET : gmap string string) (w : World) :
  ∃ q, IndexView_get_context_data super_context GET !! "q" = Some (ctx_str q) ∧
    IndexView_get_queryset icontains {[ "q" := q ]} w
      = IndexView_get_queryset icontains GET w ∧
    ∀ key, key ≠ "q" →
      IndexView_get_context_data super_context GET !! key = super_context !! key.
Proof.
  exists (default "" (GET !! "q")). unfold IndexView_get_context_data.
  split; [by rewrite lookup_insert_eq|]. split.
  - rewrite !IndexView_get_queryset_eq. rewrite lookup_singleton_eq.
    by destruct (GET !! "q").
  - intros key Hk. by rewrite lookup_insert_ne.
Qed.

(** *** The detail and the results page *)

Lemma get_object_found (k : Z) (q : Question) (w : World) :
  Question_objects (db w) !! k = Some q → (pub_date q ≤ now w)%Z →
  get_object DetailView_get_queryset k w = (Return {| pk := k; fields := q |}, w) ∧
  get_object ResultsView_get_queryset k w = (Return {| pk := k; fields := q |}, w).
Proof.
  intros Hq Hd.
  unfold get_object, DetailView_get_queryset, ResultsView_get_queryset, mbind,
    Handler_bind, timezone_now, Question_objects_filter_pub_date_lte, mret, Handler_ret,
    get_object_or_404.
  cbn [qs_rows]. by rewrite (proj2 (published_filter w k q) (conj Hq Hd)).
Qed.

Lemma get_object_not_found (k : Z) (w : World) :
  ¬ published w k →
  get_object DetailView_get_queryset k w = (Raise Http404, w) ∧
  get_object ResultsView_get_queryset k w = (Raise Http404, w).
Proof.
  intros Hn.
  unfold get_object, DetailView_get_queryset, ResultsView_get_queryset, mbind,
    Handler_bind, timezone_now, Question_objects_filter_pub_date_lte, mret, Handler_ret,
    get_object_or_404.
  cbn [qs_rows]. by rewrite (not_published_filter w k Hn).
Qed.

(** X15. A question that the detail page shows is shown, with the same
    row, by the detail page and by the results page at any later time, as
    long as the Question table is what it was. *)
Theorem detail_visible_later k o w w' :
  get_object DetailView_get_queryset k w = (Return o, w) →
  Question_objects (db w') = Question_objects (db w) → (now w ≤ now w')%Z →
  get_object DetailView_get_queryset k w' = (Return o, w') ∧
  get_object ResultsView_get_queryset k w' = (Return o, w').
Proof.
  intros E Hdb Hnow.
  destruct (published_dec w k) as [(q & Hq & Hd)|Hn].
  - rewrite (proj1 (get_object_found k q w Hq Hd)) in E. injection E as <-.
    apply get_object_found; [by rewrite Hdb|lia].
  - rewrite (proj1 (get_object_not_found k w Hn)) in E. discriminate E.
Qed.

Lemma detail_visible_later_witness :
  get_object DetailView_get_queryset 1 Demo.world
    = (Return {| pk := 1%Z;
                 fields := {| question_text := "Tabs or spaces?"; pub_date := 100 |} |},
       Demo.world) ∧
  get_object DetailView_get_queryset 1 Demo.returning
    = (Return {| pk := 1%Z;
                 fields := {| question_text := "Tabs or spaces?"; pub_date := 100 |} |},
       Demo.returning) ∧
  get_object ResultsView_get_queryset 1 Demo.returning
    = (Return {| pk := 1%Z;
                 fields := {| question_text := "Tabs or spaces?"; pub_date := 100 |} |},
       Demo.returning).
Proof.
  assert (get_object DetailView_get_queryset 1 Demo.world
    = (Return {| pk := 1%Z;
                 fields := {| question_text := "Tabs or spaces?"; pub_date := 100 |} |},
       Demo.world)) as E by (vm_compute; reflexivity).
  split; [exact E|].
  apply (detail_visible_later 1 _ Demo.world Demo.returning E).
  - reflexivity.
  - simpl. lia.
Defined.

(** X16. A question can be voted on exactly when its detail page can be
    seen: a POST to the vote handler ends in [Http404] if and only if the
    detail page of the question does. *)
Theorem vote_404_iff_detail_404 request qid w :
  method request = "POST" →
  fst (vote request qid w) = Raise Http404
  ↔ fst (get_object DetailView_get_queryset qid w) = Raise Http404.
Proof.
  intros HP. destruct (published_dec w qid) as [Hpub|Hn].
  - assert (fst (vote request qid w) ≠ Raise Http404) as Hv.
    { destruct (vote request qid w) as [r w'] eqn:E. cbn [fst]. intros ->.
      apply vote_exception in E as [_ [(_ & _ & Hn)|([=] & _)]]. done. }
    destruct Hpub as (q & Hq & Hd).
    rewrite (proj1 (get_object_found qid q w Hq Hd)). cbn [fst]. split; [done|].
    intros [=].
  - rewrite vote_not_found by done.
    by rewrite (proj1 (get_object_not_found qid w Hn)).
Qed.

Lemma vote_404_iff_detail_404_witness :
  fst (vote (Demo.post [20%Z]) 2 Demo.world) = Raise Http404 ∧
  (fst (vote (Demo.post [20%Z]) 2 Demo.world) = Raise Http404
   ↔ fst (get_object DetailView_get_queryset 2 Demo.world) = Raise Http404).
Proof.
  split; [vm_compute; reflexivity|].
  apply (vote_404_iff_detail_404 (Demo.post [20%Z]) 2 Demo.world).
  reflexivity.
Defined.

(** X17. Every redirect of the vote handler goes to the results of the
    question voted on, and that page is there: in the world the handler
    leaves, and at any later time while the Question table is what it was,
    the results view finds the question. *)
Theorem vote_redirect_target request qid w url w' :
  vote request qid w = (Return (HttpResponseRedirect url), w') →
  url = reverse "polls:results" [qid] ∧
  ∀ w'', Question_objects (db w'') = Question_objects (db w') → (now w ≤ now w'')%Z →
    ∃ q, get_object ResultsView_get_queryset qid w''
           = (Return {| pk := qid; fields := q |}, w'').
Proof.
  intros E.
  assert (url = reverse "polls:results" [qid] ∧ published w qid ∧
          Question_objects (db w') = Question_objects (db w)) as (-> & Hpub & Hdb).
  { destruct (vote_paths request qid w) as [HP1|HP1 Hn|HP1 Hpub Hv|q HP1 Hq Hd Hv Hbad
      |k HP1 Hpub Hv Hne Hl Hk Hf|HP1 Hpub Hv Hne Hl Hok]; try discriminate E;
      by injection E as <- <-. }
  split; [done|]. intros w'' Hdb' Hnow. destruct Hpub as (q & Hq & Hd).
  exists q. apply get_object_found; [by rewrite Hdb', Hdb|lia].
Qed.

Lemma vote_redirect_target_witness :
  reverse "polls:results" [1%Z] = reverse "polls:results" [1%Z] ∧
  ∀ w'', Question_objects (db w'')
           = Question_objects (db (voted_world Demo.world 1 (submitted (Demo.post [10%Z])))) →
    (now Demo.world ≤ now w'')%Z →
    ∃ q, get_object ResultsView_get_queryset 1 w''
           = (Return {| pk := 1%Z; fields := q |}, w'').
Proof.
  apply (vote_redirect_target (Demo.post [10%Z]) 1 Demo.world).
  vm_compute. reflexivity.
Defined.
